(** * LightingCompositor: fixture compositing and inpainting-mask geometry

    A shallow embedding of [lighting_compositor.py].  Python integers are
    [Z]; Python floats are IEEE-754 binary64 values, taken from the
    executable specification [SpecFloat] of the Standard Library
    (precision 53, infinities at exponent 1024), so that [int(w * s)] and
    [int(fw * d / 2)] are computed bit for bit as CPython computes them. *)

From Stdlib Require Import ZArith Bool List Lia.
From Stdlib Require Import Floats.SpecFloat.
From stdpp Require Import gmap strings.

Open Scope Z_scope.

(** ** Exceptions and results *)

Inductive exn : Type :=
  | FileNotFoundError      (* Image.open on a missing path *)
  | UnidentifiedImageError (* Image.open on data that does not decode *)
  | OverflowError          (* int(inf), or an int too large for a float *)
  | ValueError             (* int(nan) *)
  | AttributeError         (* attribute access on None *)
  | OSError.               (* save to a destination that cannot be written *)

Inductive result (A : Type) : Type :=
  | Ok (a : A)
  | Raise (e : exn).
Arguments Ok {A} a.
Arguments Raise {A} e.

Definition result_bind {A B} (r : result A) (k : A -> result B) : result B :=
  match r with
  | Ok a => k a
  | Raise e => Raise e
  end.

(** ** Python floats *)

Module PyFloat.

Definition prec : Z := 53.
Definition emax : Z := 1024.

Abbreviation float := spec_float.

(** [float(n)]: the nearest double, ties to even. *)
Definition of_int (n : Z) : float := binary_normalize prec emax n 0 false.

Definition mul : float -> float -> float := SFmul prec emax.
Definition div : float -> float -> float := SFdiv prec emax.

(** The decimal literal [digits / 10^places], e.g. [0.2] is
    [literal 2 1] and [0.30] is [literal 30 2]: the double nearest to
    the decimal, obtained as one correctly rounded quotient of two
    exactly representable integers. *)
Definition literal (digits : Z) (places : Z) : float :=
  div (of_int digits) (of_int (10 ^ places)).

(** [n * x] with [n] an int: [n] is converted first, and the conversion
    raises when [n] is beyond the double range. *)
Definition int_mul (n : Z) (x : float) : result float :=
  match of_int n with
  | S754_infinity _ => Raise OverflowError
  | a => Ok (mul a x)
  end.

(** [x / n] with [n] an int. *)
Definition div_int (x : float) (n : Z) : result float :=
  match of_int n with
  | S754_infinity _ => Raise OverflowError
  | b => Ok (div x b)
  end.

(** [int(x)]: truncation toward zero. *)
Definition to_int (x : float) : result Z :=
  match x with
  | S754_zero _ => Ok 0
  | S754_finite s m e =>
      let a := Z.shiftl (Zpos m) e in
      Ok (if s then - a else a)
  | S754_infinity _ => Raise OverflowError
  | S754_nan => Raise ValueError
  end.

(** [0 <= x] and [0 < x] as Python evaluates them ([False] on nan). *)
Definition ge_zero (x : float) : bool := SFleb (S754_zero false) x.
Definition gt_zero (x : float) : bool := SFltb (S754_zero false) x.

(** [round(x)] of the built-in: nearest integer, ties to even.  It is
    used by no method of the compositor; the specification's wording is
    compared against [to_int] with it. *)
Definition round (x : float) : result Z :=
  match x with
  | S754_zero _ => Ok 0
  | S754_finite s m e =>
      let a :=
        if 0 <=? e then Z.shiftl (Zpos m) e
        else
          let q := Z.shiftl (Zpos m) e in
          let r := Zpos m - Z.shiftl q (- e) in
          let half := Z.shiftl 1 (- e - 1) in
          match r ?= half with
          | Lt => q
          | Gt => q + 1
          | Eq => if Z.even q then q else q + 1
          end in
      Ok (if s then - a else a)
  | S754_infinity _ => Raise OverflowError
  | S754_nan => Raise ValueError
  end.

End PyFloat.

Import PyFloat.

(** ** Geometry of the compositor, as pure functions of the sizes *)

(** Lines 43-44: the size handed to [resize]. *)
Definition scaled_length (n : Z) (scale_factor : float) : result Z :=
  result_bind (int_mul n scale_factor) (fun p =>
  result_bind (to_int p) (fun k => Ok (Z.max 1 k))).

Definition resized_size (w h : Z) (scale_factor : float) : result (Z * Z) :=
  result_bind (scaled_length w scale_factor) (fun w' =>
  result_bind (scaled_length h scale_factor) (fun h' => Ok (w', h'))).

(** Lines 60-62, with the house size passed explicitly.  Python's [//]
    is floor division, which is [Z.div]. *)
Definition clamp_position (cx cy fw fh W H : Z) : Z * Z :=
  let x := Z.max 0 (Z.min (cx - fw / 2) (W - fw)) in
  let y := Z.max 0 (Z.min (cy - fh / 2) (H - fh)) in
  (x, y).

(** Lines 96-97: one side of the dilation padding. *)
Definition dilation_pad (n : Z) (mask_dilation_percent : float) : result Z :=
  result_bind (int_mul n mask_dilation_percent) (fun p =>
  result_bind (div_int p 2) (fun q => to_int q)).

(** Lines 102-105: the corners handed to [draw.rectangle]. *)
Definition mask_box (x y fw fh pad_x pad_y W H : Z) : Z * Z * Z * Z :=
  let x0 := Z.max 0 (x - pad_x) in
  let y0 := Z.max 0 (y - pad_y) in
  let x1 := Z.min W (x + fw + pad_x) in
  let y1 := Z.min H (y + fh + pad_y) in
  (x0, y0, x1, y1).

(** Line 109: [max(pad_x, pad_y) // 2 or 1]. *)
Definition blur_radius (pad_x pad_y : Z) : Z :=
  let q := Z.max pad_x pad_y / 2 in
  if q =? 0 then 1 else q.

(** ** Images

    A Pillow image is its size and its pixel data.  Pixels are read by
    column and row, [getpixel im i j] standing for [im.getpixel((i, j))];
    only the values at [0 <= i < width] and [0 <= j < height] are pixels
    of the image. *)

Definition rgba : Type := Z * Z * Z * Z.
Definition rgb : Type := Z * Z * Z.
Definition lum : Type := Z.

Record image (P : Type) : Type := Image {
  width : Z;
  height : Z;
  getpixel : Z -> Z -> P
}.
Arguments Image {P} width height getpixel.
Arguments width {P} i.
Arguments height {P} i.
Arguments getpixel {P} i x y.

Definition size {P} (im : image P) : Z * Z := (width im, height im).

Definition alpha_of (p : rgba) : Z := let '(_, _, _, a) := p in a.

(** The arithmetic Pillow performs inside its C kernels is not part of
    the compositor; the development is parametric in it.  Each kernel
    only produces pixel data: the size of every image below is fixed by
    the operation that wraps the kernel. *)
Class Pillow : Type := {
  (** pixel data of [im.resize((w, h), Image.LANCZOS)] *)
  lanczos : image rgba -> Z -> Z -> Z -> Z -> rgba;
  (** one pixel of [ImageEnhance.Brightness(img).enhance(factor)] *)
  brightness : float -> rgba -> rgba;
  (** one pixel of [Image.alpha_composite(dst, src)] *)
  over : rgba -> rgba -> rgba;
  (** one pixel of [dst.paste(src, box, mask)]: destination pixel,
      source pixel, mask value *)
  blend : rgba -> rgba -> Z -> rgba;
  (** pixel data of [im.filter(ImageFilter.GaussianBlur(radius))] *)
  gaussian : Z -> image lum -> Z -> Z -> lum
}.

Section PillowOperations.
Context `{Pillow}.

(** [Image.new(mode, size, color)] *)
Definition new {P} (sz : Z * Z) (color : P) : image P :=
  Image (fst sz) (snd sz) (fun _ _ => color).

(** [im.copy()]: images are values here, a copy is the image. *)
Definition copy {P} (im : image P) : image P := im.

Definition resize (im : image rgba) (sz : Z * Z) : image rgba :=
  Image (fst sz) (snd sz) (lanczos im (fst sz) (snd sz)).

Definition enhance (im : image rgba) (factor : float) : image rgba :=
  Image (width im) (height im)
        (fun i j => brightness factor (getpixel im i j)).

(** [Image.alpha_composite] refuses images of different sizes. *)
Definition alpha_composite (dst src : image rgba) : result (image rgba) :=
  if (width dst =? width src) && (height dst =? height src)
  then Ok (Image (width dst) (height dst)
                 (fun i j => over (getpixel dst i j) (getpixel src i j)))
  else Raise ValueError.

(** The footprint of a [w] by [h] image pasted at [(x, y)]. *)
Definition in_box (x y w h i j : Z) : bool :=
  (x <=? i) && (i <? x + w) && (y <=? j) && (j <? y + h).

(** [dst.paste(src, (x, y), msk)]: in place; pixels of the footprint
    are blended under the alpha band of [msk], all others are kept. *)
Definition paste (dst src : image rgba) (xy : Z * Z) (msk : image rgba)
  : image rgba :=
  let '(x, y) := xy in
  Image (width dst) (height dst)
        (fun i j =>
           if in_box x y (width src) (height src) i j
           then blend (getpixel dst i j)
                      (getpixel src (i - x) (j - y))
                      (alpha_of (getpixel msk (i - x) (j - y)))
           else getpixel dst i j).

(** [ImageDraw.Draw(im).rectangle([x0, y0, x1, y1], fill)]: Pillow's
    bounding box includes both corners. *)
Definition rectangle (im : image lum) (box : Z * Z * Z * Z) (fill : lum)
  : image lum :=
  let '(x0, y0, x1, y1) := box in
  Image (width im) (height im)
        (fun i j =>
           if (x0 <=? i) && (i <=? x1) && (y0 <=? j) && (j <=? y1)
           then fill
           else getpixel im i j).

Definition gaussian_blur (radius : Z) (im : image lum) : image lum :=
  Image (width im) (height im) (gaussian radius im).

(** [im.convert("RGB")] on an RGBA image drops the alpha band. *)
Definition convert_rgb (im : image rgba) : image rgb :=
  Image (width im) (height im)
        (fun i j => let '(r, g, b, _) := getpixel im i j in (r, g, b)).

End PillowOperations.

(** ** Files *)

Inductive file : Type :=
  | Garbage                       (* bytes that are not an image *)
  | EncodedRGBA (im : image rgba)
  | EncodedRGB (im : image rgb)
  | EncodedL (im : image lum).

(** [Image.open(path).convert("RGBA")] *)
Definition open_rgba (disk : gmap string file) (path : string)
  : result (image rgba) :=
  match disk !! path with
  | None => Raise FileNotFoundError
  | Some Garbage => Raise UnidentifiedImageError
  | Some (EncodedRGBA im) => Ok im
  | Some (EncodedRGB im) =>
      Ok (Image (width im) (height im)
                (fun i j => let '(r, g, b) := getpixel im i j in (r, g, b, 255)))
  | Some (EncodedL im) =>
      Ok (Image (width im) (height im)
                (fun i j => let v := getpixel im i j in (v, v, v, 255)))
  end.

(** ** The compositor object and the world it runs in *)

Record compositor : Type := Compositor {
  path_to_house : string;
  path_to_fixture : string;
  coordinates : list (Z * Z);
  scale_factor : float;
  apply_night_filter : bool;
  mask_dilation_percent : float;
  house : option (image rgba);
  fixture : option (image rgba);
  composite : option (image rgba);
  mask : option (image lum)
}.

(** [__init__] *)
Definition init (path_to_house path_to_fixture : string)
    (coordinates : list (Z * Z)) (scale_factor : float)
    (apply_night_filter : bool) (mask_dilation_percent : float) : compositor :=
  Compositor path_to_house path_to_fixture coordinates scale_factor
             apply_night_filter mask_dilation_percent None None None None.

Definition with_house (c : compositor) (v : option (image rgba)) :=
  Compositor (path_to_house c) (path_to_fixture c) (coordinates c)
             (scale_factor c) (apply_night_filter c) (mask_dilation_percent c)
             v (fixture c) (composite c) (mask c).
Definition with_fixture (c : compositor) (v : option (image rgba)) :=
  Compositor (path_to_house c) (path_to_fixture c) (coordinates c)
             (scale_factor c) (apply_night_filter c) (mask_dilation_percent c)
             (house c) v (composite c) (mask c).
Definition with_composite (c : compositor) (v : option (image rgba)) :=
  Compositor (path_to_house c) (path_to_fixture c) (coordinates c)
             (scale_factor c) (apply_night_filter c) (mask_dilation_percent c)
             (house c) (fixture c) v (mask c).
Definition with_mask (c : compositor) (v : option (image lum)) :=
  Compositor (path_to_house c) (path_to_fixture c) (coordinates c)
             (scale_factor c) (apply_night_filter c) (mask_dilation_percent c)
             (house c) (fixture c) (composite c) v.

(** One line of the report [run] prints. *)
Inductive report : Type :=
  | CompositeSaved (path : string) (w h : Z)
  | MaskSaved (path : string) (w h : Z)
  | FixturesPlaced (n : nat).

Record world : Type := World {
  this : compositor;            (* [self] *)
  disk : gmap string file;      (* the files that exist *)
  unwritable : gset string;     (* destinations that refuse a write *)
  stdout : list report
}.

(** ** Methods run in a state monad whose state survives an exception *)

Definition M (A : Type) : Type := world -> result A * world.

Definition ret {A} (a : A) : M A := fun w => (Ok a, w).
Definition raise {A} (e : exn) : M A := fun w => (Raise e, w).
Definition bind {A B} (m : M A) (k : A -> M B) : M B :=
  fun w => match m w with
           | (Ok a, w') => k a w'
           | (Raise e, w') => (Raise e, w')
           end.
Definition lift {A} (r : result A) : M A := fun w => (r, w).

Declare Scope py_scope.
Delimit Scope py_scope with py.
Notation "x <- c ;; k" := (bind c (fun x => k))
  (at level 100, c at next level, right associativity) : py_scope.
Notation "c ;; k" := (bind c (fun _ => k))
  (at level 100, right associativity) : py_scope.
Open Scope py_scope.

Definition self : M compositor := fun w => (Ok (this w), w).
Definition update (f : compositor -> compositor) : M unit :=
  fun w => (Ok tt, World (f (this w)) (disk w) (unwritable w) (stdout w)).

(** Reading an attribute of a field that may still be [None]. *)
Definition deref {A} (o : option A) : M A :=
  match o with
  | Some a => ret a
  | None => raise AttributeError
  end.

Definition open_image (path : string) : M (image rgba) :=
  fun w => (open_rgba (disk w) path, w).

Definition save (f : file) (path : string) : M unit :=
  fun w => if decide (path ∈ unwritable w)
           then (Raise OSError, w)
           else (Ok tt, World (this w) (<[path := f]> (disk w))
                              (unwritable w) (stdout w)).

Definition print (r : report) : M unit :=
  fun w => (Ok tt, World (this w) (disk w) (unwritable w) (stdout w ++ [r])).

(** [for v in vs: body(v)] *)
Fixpoint for_each {A} (vs : list A) (body : A -> M unit) : M unit :=
  match vs with
  | [] => ret tt
  | v :: vs' => body v ;; for_each vs' body
  end.

Section Methods.
Context `{Pillow}.

Definition _load_images : M unit :=
  c <- self ;;
  h <- open_image (path_to_house c) ;;
  update (fun c => with_house c (Some h)) ;;
  f <- open_image (path_to_fixture c) ;;
  update (fun c => with_fixture c (Some f)).

Definition _resize_fixture : M (image rgba) :=
  c <- self ;;
  f <- deref (fixture c) ;;
  w <- lift (scaled_length (width f) (scale_factor c)) ;;
  h <- lift (scaled_length (height f) (scale_factor c)) ;;
  ret (resize f (w, h)).

Definition _apply_night_filter (img : image rgba) : M (image rgba) :=
  let darkened := enhance img (literal 5 1) in
  let tint := new (size img) (20, 20, 50, 80) in
  lift (alpha_composite darkened tint).

Definition _clamp_position (cx cy fw fh : Z) : M (Z * Z) :=
  c <- self ;;
  h <- deref (house c) ;;
  ret (clamp_position cx cy fw fh (width h) (height h)).

Definition build_composite : M (image rgba) :=
  _load_images ;;
  fixture_resized <- _resize_fixture ;;
  c <- self ;;
  h <- deref (house c) ;;
  (if apply_night_filter c
   then img <- _apply_night_filter (copy h) ;;
        update (fun c => with_composite c (Some img))
   else update (fun c => with_composite c (Some (copy h)))) ;;
  let '(fw, fh) := size fixture_resized in
  for_each (coordinates c) (fun '(cx, cy) =>
    xy <- _clamp_position cx cy fw fh ;;
    c <- self ;;
    img <- deref (composite c) ;;
    update (fun c =>
      with_composite c (Some (paste img fixture_resized xy fixture_resized)))) ;;
  c <- self ;;
  deref (composite c).

Definition build_mask : M (image lum) :=
  c <- self ;;
  match house c with
  | None => _load_images
  | Some _ => ret tt
  end ;;
  fixture_resized <- _resize_fixture ;;
  let '(fw, fh) := size fixture_resized in
  c <- self ;;
  h <- deref (house c) ;;
  update (fun c => with_mask c (Some (new (size h) 0))) ;;
  pad_x <- lift (dilation_pad fw (mask_dilation_percent c)) ;;
  pad_y <- lift (dilation_pad fh (mask_dilation_percent c)) ;;
  for_each (coordinates c) (fun '(cx, cy) =>
    xy <- _clamp_position cx cy fw fh ;;
    let '(x, y) := xy in
    c <- self ;;
    h <- deref (house c) ;;
    m <- deref (mask c) ;;
    let box := mask_box x y fw fh pad_x pad_y (width h) (height h) in
    update (fun c => with_mask c (Some (rectangle m box 255)))) ;;
  c <- self ;;
  m <- deref (mask c) ;;
  let blurred := gaussian_blur (blur_radius pad_x pad_y) m in
  update (fun c => with_mask c (Some blurred)) ;;
  ret blurred.

Definition run (output_composite output_mask : string)
  : M (string * string) :=
  composite <- build_composite ;;
  mask <- build_mask ;;
  save (EncodedRGB (convert_rgb composite)) output_composite ;;
  save (EncodedL mask) output_mask ;;
  print (CompositeSaved output_composite (width composite) (height composite)) ;;
  print (MaskSaved output_mask (width mask) (height mask)) ;;
  c <- self ;;
  print (FixturesPlaced (length (coordinates c))) ;;
  ret (output_composite, output_mask).

End Methods.

(** ** The specification's vocabulary *)

(** [clamp(v, lower, upper)] *)
Definition clamp (v lower upper : Z) : Z :=
  if v <? lower then lower else if upper <? v then upper else v.

(** The resized size as the specification words it: both products
    rounded to the nearest integer. *)
Definition spec_scaled_length (n : Z) (scale_factor : float) : result Z :=
  result_bind (int_mul n scale_factor) (fun p =>
  result_bind (round p) (fun k => Ok (Z.max 1 k))).

Definition spec_resized_size (w h : Z) (scale_factor : float)
  : result (Z * Z) :=
  result_bind (spec_scaled_length w scale_factor) (fun w' =>
  result_bind (spec_scaled_length h scale_factor) (fun h' => Ok (w', h'))).


(** ** Sign classes of doubles, used to bound the padding *)

(** The sign bit is clear (nan has none). *)
Definition sign_clear (x : float) : Prop :=
  match x with
  | S754_zero s | S754_infinity s | S754_finite s _ _ => s = false
  | S754_nan => True
  end.

(** Not below zero: a zero of either sign, a positive number, or nan. *)
Definition not_negative (x : float) : Prop :=
  match x with
  | S754_finite true _ _ | S754_infinity true => False
  | _ => True
  end.

(** The exact value of a finite double, as a fraction
    [numerator / denominator] with a positive denominator. *)
Definition numerator (x : float) : Z :=
  match x with
  | S754_finite s m e => (if s then -1 else 1) * (Zpos m * 2 ^ Z.max e 0)
  | _ => 0
  end.

Definition denominator (x : float) : Z :=
  match x with
  | S754_finite _ _ e => 2 ^ Z.max (- e) 0
  | _ => 1
  end.

(** [k] is [x] with its fraction dropped: the floor of a value that is
    not below zero, the ceiling of a value that is not above zero. *)
Definition truncation (k : Z) (x : float) : Prop :=
  (0 <= numerator x ->
   k * denominator x <= numerator x < (k + 1) * denominator x)
  /\ (numerator x <= 0 ->
      (k - 1) * denominator x < numerator x <= k * denominator x).

(** The state [build_composite] leaves behind when it returns [comp]:
    both inputs loaded, the composite stored. *)
Definition composed (w : world) (bg fx comp : image rgba) : world :=
  World (with_composite (with_fixture (with_house (this w) (Some bg)) (Some fx))
                        (Some comp))
        (disk w) (unwritable w) (stdout w).

(** ** What the two loops compute, as folds over the placements *)

Section Summaries.
Context `{Pillow}.

(** The night filter on pixels: brightness halved, then the tint
    composited over. *)
Definition night (img : image rgba) : image rgba :=
  Image (width img) (height img)
        (fun i j => over (brightness (literal 5 1) (getpixel img i j))
                         (20, 20, 50, 80)).

(** The image the pasting starts from. *)
Definition backdrop (filtered : bool) (bg : image rgba) : image rgba :=
  if filtered then night bg else bg.

(** The footprint corner of a placement. *)
Definition corner (bg : image rgba) (fw fh : Z) (c : Z * Z) : Z * Z :=
  clamp_position (fst c) (snd c) fw fh (width bg) (height bg).

Definition paste_all (bg fr : image rgba) (coords : list (Z * Z))
    (start : image rgba) : image rgba :=
  fold_left
    (fun img c => paste img fr (corner bg (width fr) (height fr) c) fr)
    coords start.

Definition draw_all (bg : image rgba) (fw fh pad_x pad_y : Z)
    (coords : list (Z * Z)) (start : image lum) : image lum :=
  fold_left
    (fun m c =>
       let '(x, y) := corner bg fw fh c in
       rectangle m (mask_box x y fw fh pad_x pad_y (width bg) (height bg)) 255)
    coords start.

(** Whether pixel [(i, j)] lies in the footprint of some placement. *)
Definition covered (bg : image rgba) (fw fh : Z) (coords : list (Z * Z))
    (i j : Z) : bool :=
  existsb (fun c => in_box (fst (corner bg fw fh c)) (snd (corner bg fw fh c))
                           fw fh i j)
          coords.


(** What [build_mask] returns once both files are decoded. *)
Definition mask_of (bg fx : image rgba) (coords : list (Z * Z))
    (scale dilation : float) : result (image lum) :=
  result_bind (resized_size (width fx) (height fx) scale) (fun sz =>
  result_bind (dilation_pad (fst sz) dilation) (fun pad_x =>
  result_bind (dilation_pad (snd sz) dilation) (fun pad_y =>
  Ok (gaussian_blur (blur_radius pad_x pad_y)
        (draw_all bg (fst sz) (snd sz) pad_x pad_y coords
                  (new (size bg) 0)))))).

(** Decoding the two inputs, house first. *)
Definition decoded (w : world) : result (image rgba * image rgba) :=
  result_bind (open_rgba (disk w) (path_to_house (this w))) (fun bg =>
  result_bind (open_rgba (disk w) (path_to_fixture (this w))) (fun fx =>
  Ok (bg, fx))).

(** The two inputs as [build_mask] meets them: still to be decoded
    from the files, or already held by the object. *)
Definition inputs (w : world) (bg fx : image rgba) : Prop :=
  (house (this w) = None /\ decoded w = Ok (bg, fx))
  \/ (house (this w) = Some bg /\ fixture (this w) = Some fx).

End Summaries.

(** ** A concrete setting for the examples

    Integer stand-ins for Pillow's kernels (nearest-neighbour resize,
    halved brightness, integer "over" blending, a three-tap blur), and
    the demonstration of the script: a plain 800x600 house, a plain
    100x100 fixture, four placements, scale 0.2, dilation 0.30. *)

Definition mix (a b m : Z) : Z := (a * (255 - m) + b * m) / 255.

#[local] Instance sample_kernels : Pillow := {|
  lanczos := fun im w h i j =>
    getpixel im (i * width im / w) (j * height im / h);
  brightness := fun _ '(r, g, b, a) => (r / 2, g / 2, b / 2, a);
  over := fun '(r, g, b, _) '(r', g', b', a') =>
    (mix r r' a', mix g g' a', mix b b' a', 255);
  blend := fun '(r, g, b, a) '(r', g', b', a') m =>
    (mix r r' m, mix g g' m, mix b b' m, mix a a' m);
  gaussian := fun r im i j =>
    (getpixel im (i - r) j + 2 * getpixel im i j + getpixel im (i + r) j) / 4
|}.

Definition plain {P} (w h : Z) (color : P) : image P :=
  Image w h (fun _ _ => color).

Definition demo_disk : gmap string file :=
  <["_test_house.png" := EncodedRGB (plain 800 600 (240, 240, 240))]>
  (<["_test_fixture.png" := EncodedRGBA (plain 100 100 (200, 160, 50, 230))]> ∅).

(** The two demonstration files as [_load_images] decodes them. *)
Definition demo_house : image rgba :=
  Image 800 600
        (fun i j =>
           let '(r, g, b) := getpixel (plain 800 600 (240, 240, 240)) i j in
           (r, g, b, 255)).
Definition demo_fixture : image rgba := plain 100 100 (200, 160, 50, 230).

Definition demo_coords : list (Z * Z) :=
  [(280, 490); (520, 490); (200, 350); (600, 350)].

Definition demo (filtered : bool) : world :=
  World (init "_test_house.png" "_test_fixture.png" demo_coords
              (literal 2 1) filtered (literal 30 2))
        demo_disk ∅ [].

(** The same object pointed at a fixture file that does not exist. *)
Definition demo_missing : world :=
  World (init "_test_house.png" "missing.png" demo_coords
              (literal 2 1) true (literal 30 2))
        demo_disk ∅ [].

(** A 7x7 fixture already loaded, to be scaled by 0.25. *)
Definition small_fixture : world :=
  World (Compositor "h.png" "f.png" [] (literal 25 2) true (literal 30 2)
                    (Some (plain 10 10 (0, 0, 0, 255)))
                    (Some (plain 7 7 (9, 9, 9, 255))) None None)
        ∅ ∅ [].

(** ** Further vocabulary for the properties of the whole pipeline *)

(** Whether pixel [(i, j)] is filled by [draw.rectangle] on [box], both
    corners included. *)
Definition in_rect (box : Z * Z * Z * Z) (i j : Z) : bool :=
  let '(x0, y0, x1, y1) := box in
  (x0 <=? i) && (i <=? x1) && (y0 <=? j) && (j <=? y1).

(** Whether pixel [(i, j)] is filled by the rectangle of some
    placement. *)
Definition drawn (bg : image rgba) (fw fh pad_x pad_y : Z)
    (coords : list (Z * Z)) (i j : Z) : bool :=
  existsb
    (fun c =>
       in_rect (mask_box (fst (corner bg fw fh c)) (snd (corner bg fw fh c))
                         fw fh pad_x pad_y (width bg) (height bg))
               i j)
    coords.




(** * Properties of the clamp *)

Section Clamp.
Variables cx cy fw fh W H : Z.

Lemma max_min_is_clamp (v upper : Z) :
  0 <= upper -> Z.max 0 (Z.min v upper) = clamp v 0 upper.
Proof.
  intros Hu. unfold clamp.
  destruct (Z.ltb_spec v 0); destruct (Z.ltb_spec upper v); lia.
Qed.

Lemma clamp_position_fst :
  fst (clamp_position cx cy fw fh W H) = Z.max 0 (Z.min (cx - fw / 2) (W - fw)).
Proof. reflexivity. Qed.

Lemma clamp_position_snd :
  snd (clamp_position cx cy fw fh W H) = Z.max 0 (Z.min (cy - fh / 2) (H - fh)).
Proof. reflexivity. Qed.

End Clamp.

(** C2: when the resized overlay (whose sides, being sizes, are not
    negative) fits the background, the top-left corner is
    [clamp(cx - fw/2, 0, W - fw)], [clamp(cy - fh/2, 0, H - fh)], the
    halves being the floor halves of [//]; a centre at [(0, 0)] gives
    exactly [(0, 0)] and a centre at [(W, H)] gives exactly
    [(W - fw, H - fh)]. *)
Theorem clamp_position_fitting (cx cy fw fh W H : Z) :
  0 <= fw <= W -> 0 <= fh <= H ->
  clamp_position cx cy fw fh W H
    = (clamp (cx - fw / 2) 0 (W - fw), clamp (cy - fh / 2) 0 (H - fh))
  /\ clamp_position 0 0 fw fh W H = (0, 0)
  /\ clamp_position W H fw fh W H = (W - fw, H - fh).
Proof.
  intros Hw Hh. unfold clamp_position. repeat split.
  - rewrite !max_min_is_clamp by lia. reflexivity.
  - f_equal.
    + assert (0 <= fw / 2) by (apply Z.div_pos; lia). lia.
    + assert (0 <= fh / 2) by (apply Z.div_pos; lia). lia.
  - f_equal.
    + assert (fw / 2 <= fw) by (apply Z.div_le_upper_bound; lia). lia.
    + assert (fh / 2 <= fh) by (apply Z.div_le_upper_bound; lia). lia.
Qed.

Lemma clamp_position_fitting_witness :
  clamp_position 795 3 20 20 800 600 = (clamp (795 - 20 / 2) 0 (800 - 20),
                                        clamp (3 - 20 / 2) 0 (600 - 20))
  /\ clamp_position 0 0 20 20 800 600 = (0, 0)
  /\ clamp_position 800 600 20 20 800 600 = (800 - 20, 600 - 20).
Proof. apply (clamp_position_fitting 795 3 20 20 800 600); lia. Defined.

(** C5: a centre that is more than half the overlay's width from the
    left and right edges and more than half its height from the top and
    bottom edges is not clamped: the top-left corner is
    [(cx - fw/2, cy - fh/2)].  On the 800x600 background, the 100x100
    overlay scaled by 0.2 is 20x20 and the placement (280, 490) gets the
    corner (270, 480). *)
Theorem clamp_position_interior :
  (forall cx cy fw fh W H : Z,
      fw / 2 < cx -> fw / 2 < W - cx ->
      fh / 2 < cy -> fh / 2 < H - cy ->
      clamp_position cx cy fw fh W H = (cx - fw / 2, cy - fh / 2))
  /\ resized_size 100 100 (literal 2 1) = Ok (20, 20)
  /\ clamp_position 280 490 20 20 800 600 = (270, 480).
Proof.
  split; [| split; reflexivity].
  intros cx cy fw fh W H Hl Hr Ht Hb. unfold clamp_position.
  pose proof (Z.div_mod fw 2). pose proof (Z.mod_pos_bound fw 2).
  pose proof (Z.div_mod fh 2). pose proof (Z.mod_pos_bound fh 2).
  f_equal; lia.
Qed.

Lemma clamp_position_interior_witness :
  clamp_position 280 490 20 20 800 600 = (280 - 20 / 2, 490 - 20 / 2).
Proof.
  apply (proj1 clamp_position_interior 280 490 20 20 800 600);
    reflexivity.
Defined.

(** C9: whatever the inputs, neither coordinate is negative; and when
    the overlay is wider (taller) than the background the coordinate is
    0, the outer [max(0, _)] being applied after the inner [min]. *)
Theorem clamp_position_nonnegative (cx cy fw fh W H : Z) :
  0 <= fst (clamp_position cx cy fw fh W H)
  /\ 0 <= snd (clamp_position cx cy fw fh W H)
  /\ (W < fw -> fst (clamp_position cx cy fw fh W H) = 0)
  /\ (H < fh -> snd (clamp_position cx cy fw fh W H) = 0).
Proof.
  rewrite clamp_position_fst, clamp_position_snd.
  repeat split; lia.
Qed.

Lemma clamp_position_nonnegative_witness :
  0 <= fst (clamp_position (-7) 1000 30 5 20 4)
  /\ 0 <= snd (clamp_position (-7) 1000 30 5 20 4)
  /\ fst (clamp_position (-7) 1000 30 5 20 4) = 0
  /\ snd (clamp_position (-7) 1000 30 5 20 4) = 0.
Proof.
  destruct (clamp_position_nonnegative (-7) 1000 30 5 20 4)
    as (Hx & Hy & Hw & Hh).
  split; [exact Hx | split; [exact Hy | split]].
  - apply Hw. reflexivity.
  - apply Hh. reflexivity.
Defined.

(** * Properties of the float arithmetic *)

Lemma binary_round_aux_sign (s : bool) (m e : Z) (l : location) :
  match binary_round_aux prec emax s m e l with
  | S754_zero s' | S754_infinity s' | S754_finite s' _ _ => s' = s
  | S754_nan => True
  end.
Proof.
  unfold binary_round_aux.
  destruct (shr_fexp prec emax m e l) as [mrs' e'].
  destruct (shr_fexp prec emax _ e' loc_Exact) as [mrs'' e''].
  destruct (shr_m mrs''); trivial.
  destruct (e'' <=? emax - prec); trivial.
Qed.

Lemma of_int_sign (n : Z) : 0 <= n -> sign_clear (of_int n).
Proof.
  intros Hn. unfold of_int, binary_normalize, sign_clear.
  destruct n as [| p | p]; [reflexivity | | lia].
  unfold binary_round.
  destruct (shl_align p 0 _) as [mz ez].
  pose proof (binary_round_aux_sign false (Zpos mz) ez loc_Exact) as Hs.
  destruct (binary_round_aux prec emax false (Zpos mz) ez loc_Exact);
    trivial.
Qed.

Lemma nonneg_cases (d : float) :
  ge_zero d = true ->
  (exists s, d = S754_zero s) \/ d = S754_infinity false
  \/ exists m e, d = S754_finite false m e.
Proof.
  unfold ge_zero, SFleb, SFcompare.
  destruct d as [s | [|] | | [|] m e]; intros Hd; try discriminate; eauto.
Qed.

Lemma mul_not_negative (a d : float) :
  sign_clear a -> ge_zero d = true -> not_negative (mul a d).
Proof.
  intros Ha Hd.
  destruct (nonneg_cases d Hd) as [[s ->] | [-> | (m & e & ->)]];
    destruct a as [sa | sa | | sa ma ea]; simpl in Ha; subst; simpl;
    try exact I.
  pose proof (binary_round_aux_sign false (Zpos (ma * m)) (ea + e) loc_Exact)
    as Hs.
  destruct (binary_round_aux prec emax false _ _ loc_Exact);
    subst; exact I.
Qed.

Lemma of_int_two : of_int 2 = S754_finite false 4503599627370496 (-51).
Proof. reflexivity. Qed.

Lemma div_two_not_negative (p : float) :
  not_negative p -> not_negative (div p (of_int 2)).
Proof.
  rewrite of_int_two. intros Hp.
  destruct p as [s | [|] | | [|] m e]; simpl in Hp; try contradiction;
    try exact I.
  unfold div, SFdiv.
  destruct (SFdiv_core_binary prec emax (Zpos m) e _ _) as [[mz ez] lz].
  pose proof (binary_round_aux_sign (xorb false false) mz ez lz) as Hs.
  destruct (binary_round_aux prec emax (xorb false false) mz ez lz);
    simpl in Hs; subst; exact I.
Qed.

Lemma to_int_not_negative (q : float) (k : Z) :
  not_negative q -> to_int q = Ok k -> 0 <= k.
Proof.
  destruct q as [s | s | | [|] m e]; simpl; intros Hq Hk;
    try contradiction; try discriminate.
  - injection Hk as <-. lia.
  - injection Hk as <-. apply Z.shiftl_nonneg. lia.
Qed.

(** A padding computed from a length and a dilation that are not
    negative is not negative. *)
Lemma dilation_pad_nonneg (n : Z) (d : float) (k : Z) :
  0 <= n -> ge_zero d = true -> dilation_pad n d = Ok k -> 0 <= k.
Proof.
  intros Hn Hd. unfold dilation_pad, int_mul, div_int, result_bind.
  pose proof (of_int_sign n Hn) as Hs.
  destruct (of_int n) as [s | s | | s m e] eqn:En; try discriminate;
    intros Hk; (eapply to_int_not_negative; [| exact Hk]);
    apply div_two_not_negative; apply mul_not_negative; assumption.
Qed.

(** [int] drops the fraction of the exact value. *)
Lemma to_int_truncates (x : float) (k : Z) :
  to_int x = Ok k -> truncation k x.
Proof.
  unfold truncation.
  destruct x as [s | s | | s m e]; cbn [to_int numerator denominator];
    intros Hk; try discriminate; injection Hk as <-.
  - lia.
  - destruct (Z.le_gt_cases 0 e) as [He | He].
    + rewrite Z.shiftl_mul_pow2 by exact He.
      rewrite (Z.max_l e 0), (Z.max_r (- e) 0) by lia.
      assert (0 < 2 ^ e) by (apply Z.pow_pos_nonneg; lia).
      change (2 ^ 0) with 1. destruct s; nia.
    + rewrite Z.shiftl_div_pow2 by lia.
      rewrite (Z.max_r e 0), (Z.max_l (- e) 0) by lia.
      change (2 ^ 0) with 1.
      assert (0 < 2 ^ (- e)) by (apply Z.pow_pos_nonneg; lia).
      pose proof (Z.div_mod (Zpos m) (2 ^ (- e))).
      pose proof (Z.mod_pos_bound (Zpos m) (2 ^ (- e))).
      destruct s; nia.
Qed.

(** * The methods, step by step *)

Lemma bind_ok {A B} (m : M A) (k : A -> M B) (w w' : world) (a : A) :
  m w = (Ok a, w') -> bind m k w = k a w'.
Proof. intros Hm. unfold bind. rewrite Hm. reflexivity. Qed.

Lemma bind_raise {A B} (m : M A) (k : A -> M B) (w w' : world) (e : exn) :
  m w = (Raise e, w') -> bind m k w = (Raise e, w').
Proof. intros Hm. unfold bind. rewrite Hm. reflexivity. Qed.

Lemma world_eta (w : world) :
  World (this w) (disk w) (unwritable w) (stdout w) = w.
Proof. destruct w. reflexivity. Qed.

Lemma with_composite_same (c : compositor) (img : image rgba) :
  composite c = Some img -> with_composite c (Some img) = c.
Proof. destruct c. simpl. intros ->. reflexivity. Qed.

Lemma with_mask_same (c : compositor) (m : image lum) :
  mask c = Some m -> with_mask c (Some m) = c.
Proof. destruct c. simpl. intros ->. reflexivity. Qed.

(** One statement of a method whose outcome is known by unfolding. *)
Ltac step := erewrite bind_ok by reflexivity; cbv beta.

Section Steps.
Context `{Pillow}.

Lemma load_images_run (w : world) :
  _load_images w =
  match open_rgba (disk w) (path_to_house (this w)) with
  | Raise e => (Raise e, w)
  | Ok h =>
      match open_rgba (disk w) (path_to_fixture (this w)) with
      | Raise e =>
          (Raise e, World (with_house (this w) (Some h))
                          (disk w) (unwritable w) (stdout w))
      | Ok f =>
          (Ok tt, World (with_fixture (with_house (this w) (Some h)) (Some f))
                        (disk w) (unwritable w) (stdout w))
      end
  end.
Proof.
  unfold _load_images, bind, self, open_image, update. simpl.
  destruct (open_rgba (disk w) (path_to_house (this w))); reflexivity.
Qed.

Lemma resize_fixture_run (w : world) (f : image rgba) :
  fixture (this w) = Some f ->
  _resize_fixture w =
  (match resized_size (width f) (height f) (scale_factor (this w)) with
   | Ok sz => Ok (resize f sz)
   | Raise e => Raise e
   end, w).
Proof.
  intros Hf. unfold _resize_fixture, bind, self, lift, ret. simpl.
  rewrite Hf. simpl. unfold resized_size, result_bind.
  destruct (scaled_length (width f) _); trivial.
  destruct (scaled_length (height f) _); trivial.
Qed.

Lemma apply_night_filter_run (img : image rgba) (w : world) :
  _apply_night_filter img w = (Ok (night img), w).
Proof.
  unfold _apply_night_filter, lift, alpha_composite. simpl.
  rewrite !Z.eqb_refl. reflexivity.
Qed.

Lemma clamp_position_run (cx cy fw fh : Z) (w : world) (bg : image rgba) :
  house (this w) = Some bg ->
  _clamp_position cx cy fw fh w
  = (Ok (clamp_position cx cy fw fh (width bg) (height bg)), w).
Proof.
  intros Hb. unfold _clamp_position, bind, self. simpl.
  rewrite Hb. reflexivity.
Qed.

Lemma paste_loop (fr bg : image rgba) (coords : list (Z * Z)) :
  forall (w : world) (img : image rgba),
    house (this w) = Some bg ->
    composite (this w) = Some img ->
    for_each coords (fun '(cx, cy) =>
      xy <- _clamp_position cx cy (width fr) (height fr) ;;
      c <- self ;;
      img <- deref (composite c) ;;
      update (fun c => with_composite c (Some (paste img fr xy fr)))) w
    = (Ok tt,
       World (with_composite (this w) (Some (paste_all bg fr coords img)))
             (disk w) (unwritable w) (stdout w)).
Proof.
  induction coords as [| [cx cy] rest IH]; intros w img Hb Hc.
  - cbn [for_each paste_all fold_left]. unfold ret.
    rewrite (with_composite_same _ _ Hc), world_eta. reflexivity.
  - cbn [for_each].
    erewrite bind_ok.
    2:{ erewrite bind_ok by (apply clamp_position_run; exact Hb).
        step. rewrite Hc. step. reflexivity. }
    erewrite IH; [| exact Hb | reflexivity].
    reflexivity.
Qed.

Lemma draw_loop (bg : image rgba) (fw fh pad_x pad_y : Z)
    (coords : list (Z * Z)) :
  forall (w : world) (m : image lum),
    house (this w) = Some bg ->
    mask (this w) = Some m ->
    for_each coords (fun '(cx, cy) =>
      xy <- _clamp_position cx cy fw fh ;;
      let '(x, y) := xy in
      c <- self ;;
      h <- deref (house c) ;;
      m <- deref (mask c) ;;
      let box := mask_box x y fw fh pad_x pad_y (width h) (height h) in
      update (fun c => with_mask c (Some (rectangle m box 255)))) w
    = (Ok tt,
       World (with_mask (this w)
                (Some (draw_all bg fw fh pad_x pad_y coords m)))
             (disk w) (unwritable w) (stdout w)).
Proof.
  induction coords as [| [cx cy] rest IH]; intros w m Hb Hm.
  - cbn [for_each draw_all fold_left]. unfold ret.
    rewrite (with_mask_same _ _ Hm), world_eta. reflexivity.
  - cbn [for_each].
    destruct (clamp_position cx cy fw fh (width bg) (height bg))
      as [x y] eqn:Exy.
    erewrite bind_ok.
    2:{ erewrite bind_ok by (apply clamp_position_run; exact Hb).
        rewrite Exy. step. rewrite Hb. step. rewrite Hm. step. reflexivity. }
    erewrite IH; [| exact Hb | reflexivity].
    change (draw_all bg fw fh pad_x pad_y ((cx, cy) :: rest) m)
      with (draw_all bg fw fh pad_x pad_y rest
              (let '(x, y) := corner bg fw fh (cx, cy) in
               rectangle m (mask_box x y fw fh pad_x pad_y
                                     (width bg) (height bg)) 255)).
    change (corner bg fw fh (cx, cy))
      with (clamp_position cx cy fw fh (width bg) (height bg)).
    rewrite Exy. reflexivity.
Qed.

Lemma build_composite_run (w : world) (bg fx : image rgba) (sz : Z * Z) :
  open_rgba (disk w) (path_to_house (this w)) = Ok bg ->
  open_rgba (disk w) (path_to_fixture (this w)) = Ok fx ->
  resized_size (width fx) (height fx) (scale_factor (this w)) = Ok sz ->
  let comp := paste_all bg (resize fx sz) (coordinates (this w))
                        (backdrop (apply_night_filter (this w)) bg) in
  build_composite w = (Ok comp, composed w bg fx comp).
Proof.
  intros Hh Hf Hsz comp. unfold build_composite.
  erewrite bind_ok by (rewrite load_images_run, Hh, Hf; reflexivity).
  erewrite bind_ok.
  2:{ erewrite resize_fixture_run by reflexivity.
      cbn [this scale_factor with_fixture with_house]. rewrite Hsz.
      reflexivity. }
  step. step.
  cbn [this apply_night_filter with_fixture with_house].
  erewrite bind_ok.
  2:{ instantiate (1 := World (with_composite
                                 (with_fixture (with_house (this w) (Some bg)) (Some fx))
                                 (Some (backdrop (apply_night_filter (this w)) bg)))
                              (disk w) (unwritable w) (stdout w)).
      instantiate (1 := tt).
      destruct (apply_night_filter (this w)).
      - erewrite bind_ok by apply apply_night_filter_run. reflexivity.
      - reflexivity. }
  cbv beta iota delta [size].
  erewrite bind_ok.
  2:{ apply (paste_loop (resize fx sz) bg); reflexivity. }
  step. reflexivity.
Qed.


Lemma build_mask_run (w : world) (bg fx : image rgba) (sz : Z * Z)
    (pad_x pad_y : Z) :
  house (this w) = Some bg ->
  fixture (this w) = Some fx ->
  resized_size (width fx) (height fx) (scale_factor (this w)) = Ok sz ->
  dilation_pad (fst sz) (mask_dilation_percent (this w)) = Ok pad_x ->
  dilation_pad (snd sz) (mask_dilation_percent (this w)) = Ok pad_y ->
  let m := gaussian_blur (blur_radius pad_x pad_y)
             (draw_all bg (fst sz) (snd sz) pad_x pad_y
                       (coordinates (this w)) (new (size bg) 0)) in
  build_mask w
  = (Ok m, World (with_mask (this w) (Some m))
                 (disk w) (unwritable w) (stdout w)).
Proof.
  intros Hb Hf Hsz Hx Hy m. unfold build_mask.
  step. rewrite Hb. step.
  erewrite bind_ok
    by (erewrite resize_fixture_run by exact Hf; rewrite Hsz; reflexivity).
  cbv beta iota delta [size]. cbn [width height resize].
  step. rewrite Hb. step. step.
  cbn [this mask_dilation_percent with_mask].
  rewrite Hx. step. rewrite Hy. step.
  erewrite bind_ok.
  2:{ apply (draw_loop bg); [exact Hb | reflexivity]. }
  step. step. step. reflexivity.
Qed.

Lemma build_mask_loaded (w : world) (bg fx : image rgba) :
  house (this w) = Some bg ->
  fixture (this w) = Some fx ->
  fst (build_mask w)
  = mask_of bg fx (coordinates (this w)) (scale_factor (this w))
            (mask_dilation_percent (this w))
  /\ disk (snd (build_mask w)) = disk w
  /\ unwritable (snd (build_mask w)) = unwritable w
  /\ stdout (snd (build_mask w)) = stdout w.
Proof.
  intros Hb Hf. unfold mask_of.
  destruct (resized_size (width fx) (height fx) (scale_factor (this w)))
    as [sz | e] eqn:Hsz.
  2:{ unfold build_mask. step. rewrite Hb. step.
      erewrite bind_raise
        by (erewrite resize_fixture_run by exact Hf; rewrite Hsz; reflexivity).
      auto. }
  cbn [result_bind].
  destruct (dilation_pad (fst sz) (mask_dilation_percent (this w)))
    as [pad_x | e] eqn:Hx.
  2:{ unfold build_mask. step. rewrite Hb. step.
      erewrite bind_ok
        by (erewrite resize_fixture_run by exact Hf; rewrite Hsz; reflexivity).
      cbv beta iota delta [size]. cbn [width height resize].
      step. rewrite Hb. step. step.
      cbn [this mask_dilation_percent with_mask].
      rewrite Hx. erewrite bind_raise by reflexivity. auto. }
  cbn [result_bind].
  destruct (dilation_pad (snd sz) (mask_dilation_percent (this w)))
    as [pad_y | e] eqn:Hy.
  2:{ unfold build_mask. step. rewrite Hb. step.
      erewrite bind_ok
        by (erewrite resize_fixture_run by exact Hf; rewrite Hsz; reflexivity).
      cbv beta iota delta [size]. cbn [width height resize].
      step. rewrite Hb. step. step.
      cbn [this mask_dilation_percent with_mask].
      rewrite Hx. step. rewrite Hy. erewrite bind_raise by reflexivity.
      auto. }
  rewrite (build_mask_run w bg fx sz pad_x pad_y Hb Hf Hsz Hx Hy). auto.
Qed.

(** With nothing loaded yet, [build_mask] loads and carries on exactly
    as it does on the loaded object. *)
Lemma build_mask_after_load (w w' : world) (bg : image rgba) :
  house (this w) = None ->
  _load_images w = (Ok tt, w') ->
  house (this w') = Some bg ->
  build_mask w = build_mask w'.
Proof.
  intros Hn Hl Hb. unfold build_mask.
  rewrite (bind_ok self _ w w (this w) eq_refl). cbv beta. rewrite Hn.
  rewrite (bind_ok _load_images _ w w' tt Hl).
  rewrite (bind_ok self _ w' w' (this w') eq_refl). cbv beta. rewrite Hb.
  rewrite (bind_ok (ret tt) _ w' w' tt eq_refl).
  reflexivity.
Qed.

Lemma build_mask_fresh (w : world) :
  house (this w) = None ->
  fst (build_mask w)
  = result_bind (decoded w) (fun d =>
      mask_of (fst d) (snd d) (coordinates (this w)) (scale_factor (this w))
              (mask_dilation_percent (this w)))
  /\ disk (snd (build_mask w)) = disk w
  /\ unwritable (snd (build_mask w)) = unwritable w
  /\ stdout (snd (build_mask w)) = stdout w.
Proof.
  intros Hn. unfold decoded.
  destruct (open_rgba (disk w) (path_to_house (this w))) as [bg | e] eqn:Hh.
  2:{ unfold build_mask. step. rewrite Hn.
      erewrite bind_raise by (rewrite load_images_run, Hh; reflexivity).
      auto. }
  destruct (open_rgba (disk w) (path_to_fixture (this w))) as [fx | e] eqn:Hf.
  2:{ unfold build_mask. step. rewrite Hn.
      erewrite bind_raise by (rewrite load_images_run, Hh, Hf; reflexivity).
      auto. }
  cbn [result_bind fst snd].
  erewrite (build_mask_after_load w _ bg Hn);
    [| rewrite load_images_run, Hh, Hf; reflexivity | reflexivity].
  exact (build_mask_loaded
           (World (with_fixture (with_house (this w) (Some bg)) (Some fx))
                  (disk w) (unwritable w) (stdout w))
           bg fx eq_refl eq_refl).
Qed.

End Steps.

(** * The resized size *)

Lemma scaled_length_positive (n : Z) (s : float) (k : Z) :
  scaled_length n s = Ok k -> 1 <= k.
Proof.
  unfold scaled_length, result_bind.
  destruct (int_mul n s); [| discriminate].
  destruct (to_int a); [| discriminate].
  intros [= <-]. lia.
Qed.

Lemma resized_size_positive (w h : Z) (s : float) (sz : Z * Z) :
  resized_size w h s = Ok sz -> 1 <= fst sz /\ 1 <= snd sz.
Proof.
  unfold resized_size, result_bind.
  destruct (scaled_length w s) as [a |] eqn:Ha; [| discriminate].
  destruct (scaled_length h s) as [b |] eqn:Hb; [| discriminate].
  intros [= <-]. split; eapply scaled_length_positive; eassumption.
Qed.

(** C1, as the specification words it, fails: a 7x7 fixture scaled by
    0.25 is resized to 1x1, where rounding 1.75 would give 2x2. *)
Lemma resize_rounding_refuted :
  ~ (forall (P : Pillow) (w : world) (f img : image rgba),
        fixture (this w) = Some f ->
        gt_zero (scale_factor (this w)) = true ->
        fst (_resize_fixture w) = Ok img ->
        Ok (size img)
        = spec_resized_size (width f) (height f) (scale_factor (this w))).
Proof.
  intros Hspec.
  specialize (Hspec sample_kernels small_fixture (plain 7 7 (9, 9, 9, 255))
                    (resize (plain 7 7 (9, 9, 9, 255)) (1, 1))
                    eq_refl eq_refl eq_refl).
  vm_compute in Hspec. discriminate Hspec.
Qed.

(** C1, amended: the resized fixture is [max(1, int(w * s))] wide and
    [max(1, int(h * s))] high, where [w * s] and [h * s] are the double
    products [pw] and [ph] and [int] drops their fraction (it does not
    round); both sides are at least 1. *)
Theorem resize_fixture_truncates `{Pillow} (w : world) (f : image rgba)
    (pw ph : float) (kw kh : Z) :
  fixture (this w) = Some f ->
  int_mul (width f) (scale_factor (this w)) = Ok pw -> to_int pw = Ok kw ->
  int_mul (height f) (scale_factor (this w)) = Ok ph -> to_int ph = Ok kh ->
  exists img : image rgba,
    _resize_fixture w = (Ok img, w)
    /\ width img = Z.max 1 kw /\ height img = Z.max 1 kh
    /\ truncation kw pw /\ truncation kh ph
    /\ 1 <= width img /\ 1 <= height img.
Proof.
  intros Hf Hpw Hkw Hph Hkh.
  exists (resize f (Z.max 1 kw, Z.max 1 kh)).
  rewrite (resize_fixture_run w f Hf).
  unfold resized_size, scaled_length, result_bind.
  rewrite Hpw, Hkw, Hph, Hkh. cbn [resize width height fst snd].
  split; [reflexivity |]. split; [reflexivity |]. split; [reflexivity |].
  split; [exact (to_int_truncates pw kw Hkw) |].
  split; [exact (to_int_truncates ph kh Hkh) |].
  split; lia.
Qed.

Lemma resize_fixture_truncates_witness :
  exists img : image rgba,
    _resize_fixture small_fixture = (Ok img, small_fixture)
    /\ width img = Z.max 1 1 /\ height img = Z.max 1 1
    /\ truncation 1 (S754_finite false 7881299347898368 (-52))
    /\ truncation 1 (S754_finite false 7881299347898368 (-52))
    /\ 1 <= width img /\ 1 <= height img.
Proof.
  apply (resize_fixture_truncates small_fixture (plain 7 7 (9, 9, 9, 255))
           (S754_finite false 7881299347898368 (-52))
           (S754_finite false 7881299347898368 (-52)) 1 1);
    reflexivity.
Defined.

(** * The mask *)

Section Mask.
Context `{Pillow}.

Lemma build_mask_result (w : world) (bg fx : image rgba) :
  inputs w bg fx ->
  fst (build_mask w)
  = mask_of bg fx (coordinates (this w)) (scale_factor (this w))
            (mask_dilation_percent (this w)).
Proof.
  intros [[Hn Hd] | [Hb Hf]].
  - destruct (build_mask_fresh w Hn) as [-> _]. rewrite Hd. reflexivity.
  - destruct (build_mask_loaded w bg fx Hb Hf) as [-> _]. reflexivity.
Qed.

Lemma build_mask_blurred (w : world) (bg fx : image rgba) (sz : Z * Z)
    (pad_x pad_y : Z) :
  inputs w bg fx ->
  resized_size (width fx) (height fx) (scale_factor (this w)) = Ok sz ->
  dilation_pad (fst sz) (mask_dilation_percent (this w)) = Ok pad_x ->
  dilation_pad (snd sz) (mask_dilation_percent (this w)) = Ok pad_y ->
  fst (build_mask w)
  = Ok (gaussian_blur (blur_radius pad_x pad_y)
          (draw_all bg (fst sz) (snd sz) pad_x pad_y
                    (coordinates (this w)) (new (size bg) 0))).
Proof.
  intros Hin Hsz Hx Hy. rewrite (build_mask_result w bg fx Hin).
  unfold mask_of. rewrite Hsz. cbn [result_bind].
  rewrite Hx. cbn [result_bind]. rewrite Hy. reflexivity.
Qed.

End Mask.

Lemma demo_inputs (filtered : bool) :
  inputs (demo filtered) demo_house demo_fixture.
Proof. left. split; reflexivity. Qed.




(** Pillow's rectangle covers both corners: the column [x1] and the row
    [y1] handed to [draw.rectangle] are filled like the column [x0] and
    the row [y0]. *)
Remark rectangle_covers_both_corners `{Pillow} (im : image lum)
    (x0 y0 x1 y1 : Z) (fill : lum) :
  x0 <= x1 -> y0 <= y1 ->
  getpixel (rectangle im (x0, y0, x1, y1) fill) x0 y0 = fill
  /\ getpixel (rectangle im (x0, y0, x1, y1) fill) x1 y1 = fill.
Proof.
  intros Hx Hy. cbn [rectangle getpixel].
  rewrite !Z.leb_refl.
  destruct (Z.leb_spec x0 x1); [| lia].
  destruct (Z.leb_spec y0 y1); [| lia].
  split; reflexivity.
Qed.

(** Under a dilation that is not negative the corners are in order, as
    [draw.rectangle] requires. *)
Lemma mask_box_ordered (cx cy fw fh pad_x pad_y W H : Z) :
  0 < fw -> 0 < fh -> 0 <= pad_x -> 0 <= pad_y -> 0 <= W -> 0 <= H ->
  let '(x, y) := clamp_position cx cy fw fh W H in
  let '(x0, y0, x1, y1) := mask_box x y fw fh pad_x pad_y W H in
  x0 <= x1 /\ y0 <= y1.
Proof.
  intros Hfw Hfh Hpx Hpy HW HH. unfold clamp_position, mask_box.
  split; lia.
Qed.

(** C6: the mask is blurred with radius [max(pad_x, pad_y) // 2], or
    with radius 1 when that quotient is 0; whenever the dilation is not
    negative the radius is at least 1, hence never 0. *)
Theorem blur_radius_floor `{Pillow} (w : world) (bg fx : image rgba)
    (sz : Z * Z) (pad_x pad_y : Z) :
  inputs w bg fx ->
  resized_size (width fx) (height fx) (scale_factor (this w)) = Ok sz ->
  ge_zero (mask_dilation_percent (this w)) = true ->
  dilation_pad (fst sz) (mask_dilation_percent (this w)) = Ok pad_x ->
  dilation_pad (snd sz) (mask_dilation_percent (this w)) = Ok pad_y ->
  let q := Z.max pad_x pad_y / 2 in
  let radius := if q =? 0 then 1 else q in
  fst (build_mask w)
  = Ok (gaussian_blur radius
          (draw_all bg (fst sz) (snd sz) pad_x pad_y
                    (coordinates (this w)) (new (size bg) 0)))
  /\ radius <> 0 /\ 1 <= radius.
Proof.
  intros Hin Hsz Hd Hx Hy q radius.
  split.
  - exact (build_mask_blurred w bg fx sz pad_x pad_y Hin Hsz Hx Hy).
  - destruct (resized_size_positive _ _ _ _ Hsz) as [Hw Hh].
    assert (0 <= pad_x) by (eapply dilation_pad_nonneg; [| exact Hd | exact Hx]; lia).
    assert (0 <= pad_y) by (eapply dilation_pad_nonneg; [| exact Hd | exact Hy]; lia).
    assert (0 <= q) by (apply Z.div_pos; lia).
    subst radius. destruct (Z.eqb_spec q 0); lia.
Qed.

Lemma blur_radius_floor_witness :
  fst (build_mask (demo true))
  = Ok (gaussian_blur (if Z.max 3 3 / 2 =? 0 then 1 else Z.max 3 3 / 2)
          (draw_all demo_house 20 20 3 3 demo_coords (new (800, 600) 0)))
  /\ (if Z.max 3 3 / 2 =? 0 then 1 else Z.max 3 3 / 2) <> 0
  /\ 1 <= (if Z.max 3 3 / 2 =? 0 then 1 else Z.max 3 3 / 2).
Proof.
  exact (blur_radius_floor (demo true) demo_house demo_fixture (20, 20) 3 3
           (demo_inputs true) eq_refl eq_refl eq_refl eq_refl).
Defined.

(** * The pipeline *)

Section Sizes.
Context `{Pillow}.






(** A pixel outside the footprint is not touched by a paste. *)
Lemma paste_outside (dst src msk : image rgba) (xy : Z * Z) (i j : Z) :
  in_box (fst xy) (snd xy) (width src) (height src) i j = false ->
  getpixel (paste dst src xy msk) i j = getpixel dst i j.
Proof.
  destruct xy as [x y]. cbn [fst snd paste getpixel]. intros ->. reflexivity.
Qed.

Lemma paste_all_outside (bg fr : image rgba) (coords : list (Z * Z))
    (i j : Z) :
  (forall c, In c coords ->
             in_box (fst (corner bg (width fr) (height fr) c))
                    (snd (corner bg (width fr) (height fr) c))
                    (width fr) (height fr) i j = false) ->
  forall start : image rgba,
    getpixel (paste_all bg fr coords start) i j = getpixel start i j.
Proof.
  unfold paste_all.
  induction coords as [| c rest IH]; intros Hout start; cbn [fold_left].
  - reflexivity.
  - rewrite IH by (intros c' Hc'; apply Hout; right; exact Hc').
    apply paste_outside. apply Hout. left. reflexivity.
Qed.

Lemma decoded_inv (w : world) (bg fx : image rgba) :
  decoded w = Ok (bg, fx) ->
  open_rgba (disk w) (path_to_house (this w)) = Ok bg
  /\ open_rgba (disk w) (path_to_fixture (this w)) = Ok fx.
Proof.
  unfold decoded, result_bind.
  destruct (open_rgba (disk w) (path_to_house (this w))); [| discriminate].
  destruct (open_rgba (disk w) (path_to_fixture (this w))); [| discriminate].
  intros [= <- <-]. split; reflexivity.
Qed.



End Sizes.



(** C7: without the night filter, a pixel of the composite that lies in
    no placement's footprint is the background's pixel. *)
Theorem unfiltered_background_kept `{Pillow} (w : world)
    (bg fx : image rgba) (sz : Z * Z) :
  decoded w = Ok (bg, fx) ->
  resized_size (width fx) (height fx) (scale_factor (this w)) = Ok sz ->
  apply_night_filter (this w) = false ->
  exists comp : image rgba,
    fst (build_composite w) = Ok comp
    /\ forall i j : Z,
         covered bg (fst sz) (snd sz) (coordinates (this w)) i j = false ->
         getpixel comp i j = getpixel bg i j.
Proof.
  intros Hd Hsz Hflag.
  destruct (decoded_inv w bg fx Hd) as [Hh Hf].
  eexists. rewrite (build_composite_run w bg fx sz Hh Hf Hsz).
  split; [reflexivity |].
  intros i j Hout. rewrite Hflag. cbn [backdrop].
  apply paste_all_outside. intros c Hc.
  unfold covered in Hout.
  destruct (in_box _ _ _ _ i j) eqn:Hbox; [| reflexivity].
  rewrite <- Hout. symmetry. apply existsb_exists.
  exists c. split; [exact Hc | exact Hbox].
Qed.

Lemma unfiltered_background_kept_witness :
  exists comp : image rgba,
    fst (build_composite (demo false)) = Ok comp
    /\ getpixel comp 400 300 = getpixel demo_house 400 300.
Proof.
  destruct (unfiltered_background_kept (demo false) demo_house demo_fixture
              (20, 20) eq_refl eq_refl eq_refl) as (comp & Hc & Hpix).
  exists comp. split; [exact Hc |].
  apply Hpix. reflexivity.
Defined.

Lemma open_rgba_raises (disk : gmap string file) (path : string) (e : exn) :
  open_rgba disk path = Raise e ->
  e = FileNotFoundError \/ e = UnidentifiedImageError.
Proof.
  unfold open_rgba.
  destruct (disk !! path) as [[| im | im | im] |]; intros [= <-]; auto.
Qed.

(** C8: when either input fails to decode, [run] raises the decoder's
    exception and has written no file (and printed nothing). *)
Theorem run_aborts_on_decode_failure `{Pillow} (w : world)
    (output_composite output_mask : string) :
  (exists e, open_rgba (disk w) (path_to_house (this w)) = Raise e)
  \/ (exists e, open_rgba (disk w) (path_to_fixture (this w)) = Raise e) ->
  exists (e : exn) (w' : world),
    run output_composite output_mask w = (Raise e, w')
    /\ (e = FileNotFoundError \/ e = UnidentifiedImageError)
    /\ disk w' = disk w
    /\ stdout w' = stdout w.
Proof.
  intros Hfail.
  destruct (open_rgba (disk w) (path_to_house (this w))) as [bg | e] eqn:Hh.
  - destruct Hfail as [[e He] | [e He]]; [discriminate |].
    exists e. eexists. split.
    + unfold run, build_composite.
      erewrite bind_raise; [reflexivity |].
      erewrite bind_raise; [reflexivity |].
      rewrite load_images_run, Hh, He. reflexivity.
    + split; [exact (open_rgba_raises _ _ _ He) |]. split; reflexivity.
  - exists e, w. split.
    + unfold run, build_composite.
      erewrite bind_raise; [reflexivity |].
      erewrite bind_raise; [reflexivity |].
      rewrite load_images_run, Hh. reflexivity.
    + split; [exact (open_rgba_raises _ _ _ Hh) |]. split; reflexivity.
Qed.

Lemma run_aborts_on_decode_failure_witness :
  exists (e : exn) (w' : world),
    run "ready_for_ai_composite.png" "ready_for_ai_mask.png" demo_missing
    = (Raise e, w')
    /\ (e = FileNotFoundError \/ e = UnidentifiedImageError)
    /\ disk w' = disk demo_missing
    /\ stdout w' = stdout demo_missing.
Proof.
  apply (run_aborts_on_decode_failure demo_missing).
  right. exists FileNotFoundError. reflexivity.
Defined.


(** * Further properties: geometry *)

(** X1: when the resized overlay fits the background, the clamped
    footprint lies entirely inside the background. *)
Theorem footprint_inside_background (cx cy fw fh W H : Z) :
  fw <= W -> fh <= H ->
  0 <= fst (clamp_position cx cy fw fh W H)
  /\ fst (clamp_position cx cy fw fh W H) + fw <= W
  /\ 0 <= snd (clamp_position cx cy fw fh W H)
  /\ snd (clamp_position cx cy fw fh W H) + fh <= H.
Proof.
  intros Hw Hh. rewrite clamp_position_fst, clamp_position_snd.
  repeat split; lia.
Qed.

Lemma footprint_inside_background_witness :
  0 <= fst (clamp_position 799 (-5) 20 30 800 600)
  /\ fst (clamp_position 799 (-5) 20 30 800 600) + 20 <= 800
  /\ 0 <= snd (clamp_position 799 (-5) 20 30 800 600)
  /\ snd (clamp_position 799 (-5) 20 30 800 600) + 30 <= 600.
Proof.
  apply (footprint_inside_background 799 (-5) 20 30 800 600); lia.
Defined.

(** X2: clamping is stable: the centre of a clamped footprint is
    clamped to that same footprint, whatever the sizes. *)
Theorem clamp_position_stable (cx cy fw fh W H : Z) :
  let x := fst (clamp_position cx cy fw fh W H) in
  let y := snd (clamp_position cx cy fw fh W H) in
  clamp_position (x + fw / 2) (y + fh / 2) fw fh W H = (x, y).
Proof.
  cbv zeta. rewrite clamp_position_fst, clamp_position_snd.
  unfold clamp_position. f_equal; lia.
Qed.

(** * Further properties: the pixels of the mask and of the composite *)

Section Pixels.
Context `{Pillow}.

Lemma rectangle_pixel (im : image lum) (box : Z * Z * Z * Z) (fill : lum)
    (i j : Z) :
  getpixel (rectangle im box fill) i j
  = if in_rect box i j then fill else getpixel im i j.
Proof. destruct box as [[[x0 y0] x1] y1]. reflexivity. Qed.

Lemma draw_all_pixel (bg : image rgba) (fw fh pad_x pad_y : Z)
    (coords : list (Z * Z)) (i j : Z) :
  forall start : image lum,
    getpixel (draw_all bg fw fh pad_x pad_y coords start) i j
    = if drawn bg fw fh pad_x pad_y coords i j then 255
      else getpixel start i j.
Proof.
  unfold draw_all, drawn.
  induction coords as [| c rest IH]; intros start; cbn [fold_left existsb].
  - reflexivity.
  - rewrite IH. destruct (corner bg fw fh c) as [x y] eqn:Ec.
    cbn [fst snd]. rewrite rectangle_pixel.
    destruct (in_rect _ i j); cbn [orb];
      destruct (existsb _ rest); reflexivity.
Qed.

Lemma covered_is_drawn (bg : image rgba) (fw fh pad_x pad_y : Z)
    (coords : list (Z * Z)) (i j : Z) :
  0 <= pad_x -> 0 <= pad_y ->
  0 <= i < width bg -> 0 <= j < height bg ->
  covered bg fw fh coords i j = true ->
  drawn bg fw fh pad_x pad_y coords i j = true.
Proof.
  intros Hpx Hpy Hi Hj. unfold covered, drawn.
  rewrite !existsb_exists. intros (c & Hc & Hbox).
  exists c. split; [exact Hc |].
  unfold in_box in Hbox. unfold mask_box, in_rect.
  unfold corner in *.
  apply andb_prop in Hbox as [Hbox Hy1]. apply andb_prop in Hbox as [Hbox Hy0].
  apply andb_prop in Hbox as [Hx0 Hx1].
  apply Z.leb_le in Hx0, Hy0. apply Z.ltb_lt in Hx1, Hy1.
  repeat (apply andb_true_intro; split); apply Z.leb_le; lia.
Qed.

Lemma covered_false (bg : image rgba) (fw fh : Z) (coords : list (Z * Z))
    (i j : Z) :
  covered bg fw fh coords i j = false ->
  forall c, In c coords ->
            in_box (fst (corner bg fw fh c)) (snd (corner bg fw fh c))
                   fw fh i j = false.
Proof.
  intros Hout c Hc. unfold covered in Hout.
  destruct (in_box _ _ _ _ i j) eqn:Hbox; [| reflexivity].
  rewrite <- Hout. symmetry. apply existsb_exists.
  exists c. split; [exact Hc | exact Hbox].
Qed.

End Pixels.

(** X6: under a dilation that is not negative, every pixel of the
    background that a pasted overlay covers is white on the canvas
    handed to the blur. *)
Theorem mask_canvas_covers_footprints `{Pillow} (w : world)
    (bg fx : image rgba) (sz : Z * Z) (pad_x pad_y : Z) :
  inputs w bg fx ->
  resized_size (width fx) (height fx) (scale_factor (this w)) = Ok sz ->
  ge_zero (mask_dilation_percent (this w)) = true ->
  dilation_pad (fst sz) (mask_dilation_percent (this w)) = Ok pad_x ->
  dilation_pad (snd sz) (mask_dilation_percent (this w)) = Ok pad_y ->
  exists canvas : image lum,
    fst (build_mask w) = Ok (gaussian_blur (blur_radius pad_x pad_y) canvas)
    /\ forall i j : Z,
         0 <= i < width bg -> 0 <= j < height bg ->
         covered bg (fst sz) (snd sz) (coordinates (this w)) i j = true ->
         getpixel canvas i j = 255.
Proof.
  intros Hin Hsz Hd Hx Hy. eexists.
  split; [exact (build_mask_blurred w bg fx sz pad_x pad_y Hin Hsz Hx Hy) |].
  intros i j Hi Hj Hcov.
  destruct (resized_size_positive _ _ _ _ Hsz) as [Hw Hh].
  assert (0 <= pad_x)
    by (eapply dilation_pad_nonneg; [| exact Hd | exact Hx]; lia).
  assert (0 <= pad_y)
    by (eapply dilation_pad_nonneg; [| exact Hd | exact Hy]; lia).
  rewrite draw_all_pixel, covered_is_drawn by assumption. reflexivity.
Qed.

Lemma mask_canvas_covers_footprints_witness :
  exists canvas : image lum,
    fst (build_mask (demo true)) = Ok (gaussian_blur (blur_radius 3 3) canvas)
    /\ getpixel canvas 289 499 = 255.
Proof.
  destruct (mask_canvas_covers_footprints (demo true) demo_house demo_fixture
              (20, 20) 3 3 (demo_inputs true) eq_refl eq_refl eq_refl eq_refl)
    as (canvas & Hm & Hpix).
  exists canvas. split; [exact Hm |].
  apply Hpix; [cbn; lia | cbn; lia | reflexivity].
Defined.

(** X8: with the night filter, a pixel of the composite that lies in no
    placement's footprint is the background's pixel at half brightness
    with the tint (20, 20, 50, 80) composited over it. *)
Theorem filtered_background_tinted `{Pillow} (w : world)
    (bg fx : image rgba) (sz : Z * Z) :
  decoded w = Ok (bg, fx) ->
  resized_size (width fx) (height fx) (scale_factor (this w)) = Ok sz ->
  apply_night_filter (this w) = true ->
  exists comp : image rgba,
    fst (build_composite w) = Ok comp
    /\ forall i j : Z,
         covered bg (fst sz) (snd sz) (coordinates (this w)) i j = false ->
         getpixel comp i j
         = over (brightness (literal 5 1) (getpixel bg i j)) (20, 20, 50, 80).
Proof.
  intros Hd Hsz Hflag.
  destruct (decoded_inv w bg fx Hd) as [Hh Hf].
  eexists. rewrite (build_composite_run w bg fx sz Hh Hf Hsz).
  split; [reflexivity |].
  intros i j Hout. rewrite Hflag. cbn [backdrop].
  rewrite paste_all_outside by (apply covered_false; exact Hout).
  reflexivity.
Qed.

Lemma filtered_background_tinted_witness :
  exists comp : image rgba,
    fst (build_composite (demo true)) = Ok comp
    /\ getpixel comp 400 300
       = over (brightness (literal 5 1) (getpixel demo_house 400 300))
              (20, 20, 50, 80).
Proof.
  destruct (filtered_background_tinted (demo true) demo_house demo_fixture
              (20, 20) eq_refl eq_refl eq_refl) as (comp & Hc & Hpix).
  exists comp. split; [exact Hc |].
  apply Hpix. reflexivity.
Defined.

(** * Further properties: the object's state across calls *)

Section State.
Context `{Pillow}.


End State.

(** * Further properties: failures and the files written *)






(** * Further properties: the two outputs together *)

(** X24: the two outputs agree: under a dilation that is not negative,
    wherever the canvas handed to the blur is black inside the
    background, the composite shows the background itself (filtered when
    the night filter is on), untouched by any overlay. *)
Theorem black_mask_means_untouched `{Pillow} (w : world)
    (bg fx : image rgba) (sz : Z * Z) (pad_x pad_y : Z) :
  decoded w = Ok (bg, fx) ->
  resized_size (width fx) (height fx) (scale_factor (this w)) = Ok sz ->
  ge_zero (mask_dilation_percent (this w)) = true ->
  dilation_pad (fst sz) (mask_dilation_percent (this w)) = Ok pad_x ->
  dilation_pad (snd sz) (mask_dilation_percent (this w)) = Ok pad_y ->
  let canvas := draw_all bg (fst sz) (snd sz) pad_x pad_y
                         (coordinates (this w)) (new (size bg) 0) in
  exists comp : image rgba,
    fst (build_composite w) = Ok comp
    /\ fst (build_mask (snd (build_composite w)))
       = Ok (gaussian_blur (blur_radius pad_x pad_y) canvas)
    /\ forall i j : Z,
         0 <= i < width bg -> 0 <= j < height bg ->
         getpixel canvas i j = 0 ->
         getpixel comp i j
         = if apply_night_filter (this w)
           then over (brightness (literal 5 1) (getpixel bg i j))
                     (20, 20, 50, 80)
           else getpixel bg i j.
Proof.
  intros Hd Hsz Hdil Hx Hy canvas.
  destruct (decoded_inv w bg fx Hd) as [Hh Hf].
  eexists.
  rewrite (build_composite_run w bg fx sz Hh Hf Hsz). cbn [fst snd].
  split; [reflexivity |]. split.
  - rewrite (build_mask_run (composed w bg fx _) bg fx sz pad_x pad_y
                            eq_refl eq_refl Hsz Hx Hy).
    reflexivity.
  - intros i j Hi Hj Hblack. unfold canvas in Hblack.
    rewrite draw_all_pixel in Hblack.
    destruct (resized_size_positive _ _ _ _ Hsz) as [Hpw Hph].
    assert (0 <= pad_x)
      by (eapply dilation_pad_nonneg; [| exact Hdil | exact Hx]; lia).
    assert (0 <= pad_y)
      by (eapply dilation_pad_nonneg; [| exact Hdil | exact Hy]; lia).
    destruct (covered bg (fst sz) (snd sz) (coordinates (this w)) i j)
      eqn:Hcov.
    + rewrite (covered_is_drawn bg _ _ pad_x pad_y _ i j) in Hblack
        by assumption.
      discriminate Hblack.
    + rewrite paste_all_outside by (apply covered_false; exact Hcov).
      destruct (apply_night_filter (this w)); reflexivity.
Qed.

Lemma black_mask_means_untouched_witness :
  exists comp : image rgba,
    fst (build_composite (demo true)) = Ok comp
    /\ fst (build_mask (snd (build_composite (demo true))))
       = Ok (gaussian_blur (blur_radius 3 3)
               (draw_all demo_house 20 20 3 3 demo_coords (new (800, 600) 0)))
    /\ getpixel comp 400 300
       = over (brightness (literal 5 1) (getpixel demo_house 400 300))
              (20, 20, 50, 80).
Proof.
  destruct (black_mask_means_untouched (demo true) demo_house demo_fixture
              (20, 20) 3 3 eq_refl eq_refl eq_refl eq_refl eq_refl)
    as (comp & Hc & Hm & Hpix).
  exists comp. split; [exact Hc |]. split; [exact Hm |].
  apply Hpix; [cbn; lia | cbn; lia | reflexivity].
Defined.
